(** * hpa-exporter: status projection and condition-log shipment

    A shallow embedding of the [metrics] package and of the two loops of
    [main]: the extractors that turn one autoscaler metric entry into a
    [commonMetrics] record, the label sets built for conditions, the
    gauge registry that the poll loop resets and repopulates, and the
    CloudWatch Logs calls made by [PutHPAConditionToCWLog].

    Conventions.
    - A Go pointer is an [option]; dereferencing [nil] panics, and a
      panicking computation is [None].
    - [float64] is the kernel's binary64 type [float]; the conversion
      [float64(n)] of an integer rounds to nearest even.
    - A Go [map[string]string] is a [gmap string string]. *)

From Stdlib Require Import ZArith Floats.
From stdpp Require Import base option list gmap strings fin_maps functions.

Local Open Scope string_scope.
Local Open Scope list_scope.

(** ** Numbers *)

(** [float64(n)] for an integer [n] (int32 or int64 in the source). *)
Definition float64_of_int (n : Z) : float :=
  SF2Prim (binary_normalize prec emax n 0 false).

(** [resource.Quantity], observed only through [MilliValue()]: the
    quantity in thousandths of its unit, as an int64. *)
Record Quantity := { MilliValue : Z }.

(** The expression [float64(q.MilliValue()) / 1000]. *)
Definition milliScaled (q : Quantity) : float :=
  PrimFloat.div (float64_of_int (MilliValue q)) 1000%float.

(** ** The autoscaler objects read by the exporter
    (k8s.io/api/autoscaling/v2beta1, the fields the code touches) *)

Record CrossVersionObjectReference := {
  ref_Kind : string;
  ref_Name : string;
  ref_APIVersion : string;
}.

Record ObjectMetricSource := {
  oms_Target : CrossVersionObjectReference;
  oms_MetricName : string;
  oms_TargetValue : Quantity;
}.

Record PodsMetricSource := {
  pms_MetricName : string;
  pms_TargetAverageValue : Quantity;
}.

Record ResourceMetricSource := {
  rms_Name : string;
  rms_TargetAverageUtilization : option Z;
  rms_TargetAverageValue : option Quantity;
}.

Record ExternalMetricSource := {
  ems_MetricName : string;
  ems_TargetValue : option Quantity;
  ems_TargetAverageValue : option Quantity;
}.

Record ObjectMetricStatus := {
  omst_Target : CrossVersionObjectReference;
  omst_MetricName : string;
  omst_CurrentValue : Quantity;
}.

Record PodsMetricStatus := {
  pmst_MetricName : string;
  pmst_CurrentAverageValue : Quantity;
}.

Record ResourceMetricStatus := {
  rmst_Name : string;
  rmst_CurrentAverageUtilization : option Z;
  rmst_CurrentAverageValue : Quantity;
}.

Record ExternalMetricStatus := {
  emst_MetricName : string;
  emst_CurrentValue : Quantity;
  emst_CurrentAverageValue : option Quantity;
}.

(** [MetricSourceType] is a string type. *)
Definition ObjectMetricSourceType := "Object".
Definition PodsMetricSourceType := "Pods".
Definition ResourceMetricSourceType := "Resource".
Definition ExternalMetricSourceType := "External".

Record MetricSpec := {
  ms_Type : string;
  ms_Object : option ObjectMetricSource;
  ms_Pods : option PodsMetricSource;
  ms_Resource : option ResourceMetricSource;
  ms_External : option ExternalMetricSource;
}.

Record MetricStatus := {
  mst_Type : string;
  mst_Object : option ObjectMetricStatus;
  mst_Pods : option PodsMetricStatus;
  mst_Resource : option ResourceMetricStatus;
  mst_External : option ExternalMetricStatus;
}.

(** [core_v1.ConditionStatus] and the condition types are string types. *)
Definition ConditionTrue := "True".
Definition ConditionFalse := "False".
Definition ConditionUnknown := "Unknown".

Definition ScalingActive := "ScalingActive".
Definition AbleToScale := "AbleToScale".
Definition ScalingLimited := "ScalingLimited".

Record HorizontalPodAutoscalerCondition := {
  cond_Type : string;
  cond_Status : string;
  cond_LastTransitionTime : Z;
  cond_Reason : string;
  cond_Message : string;
}.

Record ObjectMeta := {
  meta_Name : string;
  meta_Namespace : string;
}.

Record HorizontalPodAutoscalerSpec := {
  spec_ScaleTargetRef : CrossVersionObjectReference;
  spec_MinReplicas : option Z;
  spec_MaxReplicas : Z;
  spec_Metrics : list MetricSpec;
}.

(** [status_LastScaleTime] holds the instant as Unix seconds, which is
    all the exporter reads of it. *)
Record HorizontalPodAutoscalerStatus := {
  status_LastScaleTime : option Z;
  status_CurrentReplicas : Z;
  status_DesiredReplicas : Z;
  status_CurrentMetrics : list MetricStatus;
  status_Conditions : list HorizontalPodAutoscalerCondition;
}.

Record HorizontalPodAutoscaler := {
  hpa_ObjectMeta : ObjectMeta;
  hpa_Spec : HorizontalPodAutoscalerSpec;
  hpa_Status : HorizontalPodAutoscalerStatus;
}.

(** ** Package [metrics] *)

(** [prometheus.Labels] *)
Abbreviation Labels := (gmap string string).

Record commonMetrics := {
  Kind : string;
  Name : string;
  MetricName : string;
  Value : float;
}.

Definition baseLabels : list string :=
  ["hpa_name"; "hpa_namespace"; "ref_kind"; "ref_name"; "ref_apiversion"].

Definition metricLabels : list string :=
  ["metric_kind"; "metric_name"; "metric_metricname"].

Definition annoLabels : list string :=
  ["cond_status"; "cond_reason"; "cond_message"].

(** [ans[k] = v] for every entry of [m1], then for every entry of [m2]. *)
Definition MergeLabels (m1 m2 : Labels) : Labels :=
  let ans := map_fold (fun k v (ans : Labels) => <[k := v]> ans) ∅ m1 in
  map_fold (fun k v (ans : Labels) => <[k := v]> ans) ans m2.

(** [fmt.Sprintf("%v", s)] on a value of a string type. *)
Definition Sprintf_v (s : string) : string := s.

Definition MakeAnnotationCondLabels (cond : HorizontalPodAutoscalerCondition)
  : Labels * Labels :=
  let labelForward : Labels :=
    {[ "cond_status" := Sprintf_v (cond_Status cond);
       "cond_reason" := cond_Reason cond;
       "cond_message" := cond_Message cond ]} in
  let statusReverse :=
    if decide (cond_Status cond = ConditionTrue)
    then Sprintf_v ConditionFalse
    else Sprintf_v ConditionTrue in
  let labelReverse : Labels :=
    {[ "cond_status" := statusReverse;
       "cond_reason" := "";
       "cond_message" := "" ]} in
  (labelForward, labelReverse).

Definition ParseObjectSpec (m : option ObjectMetricSource) : option commonMetrics :=
  m ← m;
  Some {| Kind := ref_Kind (oms_Target m);
          Name := ref_Name (oms_Target m);
          MetricName := oms_MetricName m;
          Value := milliScaled (oms_TargetValue m) |}.

Definition ParsePodsSpec (m : option PodsMetricSource) : option commonMetrics :=
  m ← m;
  Some {| Kind := "Pod";
          Name := "-";
          MetricName := pms_MetricName m;
          Value := milliScaled (pms_TargetAverageValue m) |}.

Definition ParseResourceSpec (m : option ResourceMetricSource) : option commonMetrics :=
  m ← m;
  t ← match rms_TargetAverageUtilization m with
      | None => q ← rms_TargetAverageValue m; Some (milliScaled q)
      | Some u => Some (float64_of_int u)
      end;
  Some {| Kind := "Resource";
          Name := rms_Name m;
          MetricName := "-";
          Value := t |}.

Definition ParseExternalSpec (m : option ExternalMetricSource) : option commonMetrics :=
  m ← m;
  t ← match ems_TargetAverageValue m with
      | None => q ← ems_TargetValue m; Some (milliScaled q)
      | Some q => Some (milliScaled q)
      end;
  Some {| Kind := "External";
          Name := "-";
          MetricName := ems_MetricName m;
          Value := t |}.

Definition ParseObjectStatus (m : option ObjectMetricStatus) : option commonMetrics :=
  m ← m;
  Some {| Kind := ref_Kind (omst_Target m);
          Name := ref_Name (omst_Target m);
          MetricName := omst_MetricName m;
          Value := milliScaled (omst_CurrentValue m) |}.

Definition ParsePodsStatus (m : option PodsMetricStatus) : option commonMetrics :=
  m ← m;
  Some {| Kind := "Pod";
          Name := "-";
          MetricName := pmst_MetricName m;
          Value := milliScaled (pmst_CurrentAverageValue m) |}.

Definition ParseResourceStatus (m : option ResourceMetricStatus) : option commonMetrics :=
  m ← m;
  let t := match rmst_CurrentAverageUtilization m with
           | None => milliScaled (rmst_CurrentAverageValue m)
           | Some u => float64_of_int u
           end in
  Some {| Kind := "Resource";
          Name := rmst_Name m;
          MetricName := "-";
          Value := t |}.

Definition ParseExternalStatus (m : option ExternalMetricStatus) : option commonMetrics :=
  m ← m;
  let t := match emst_CurrentAverageValue m with
           | None => milliScaled (emst_CurrentValue m)
           | Some q => milliScaled q
           end in
  Some {| Kind := "External";
          Name := "-";
          MetricName := emst_MetricName m;
          Value := t |}.

Definition ParseCommonMetrics (m : commonMetrics) : float * Labels :=
  (Value m,
   {[ "metric_kind" := Kind m;
      "metric_name" := Name m;
      "metric_metricname" := MetricName m ]}).

(** ** The gauge collections *)

(** The ten [prometheus.GaugeVec] variables of the package. *)
Inductive Collector :=
| HpaCurrentPodsNum
| HpaDesiredPodsNum
| HpaMinPodsNum
| HpaMaxPodsNum
| HpaLastScaleSecond
| HpaCurrentMetricsValue
| HpaTargetMetricsValue
| HpaAbleToScale
| HpaScalingActive
| HpaScalingLimited.

#[global] Instance Collector_eq_dec : EqDecision Collector.
Proof. solve_decision. Defined.

(** The label names each collector is declared with. *)
Definition variableLabels (c : Collector) : list string :=
  match c with
  | HpaCurrentPodsNum | HpaDesiredPodsNum | HpaMinPodsNum | HpaMaxPodsNum
  | HpaLastScaleSecond => baseLabels
  | HpaCurrentMetricsValue | HpaTargetMetricsValue => baseLabels ++ metricLabels
  | HpaAbleToScale | HpaScalingActive | HpaScalingLimited => baseLabels ++ annoLabels
  end.

Definition collectors : list Collector :=
  [HpaCurrentPodsNum; HpaDesiredPodsNum; HpaMinPodsNum; HpaMaxPodsNum;
   HpaLastScaleSecond; HpaCurrentMetricsValue; HpaTargetMetricsValue;
   HpaAbleToScale; HpaScalingActive; HpaScalingLimited].

(** The state of the registry: for each collector, the value last set
    for each label set since the last reset. *)
Abbreviation Registry := (Collector -> gmap Labels float).

(** [GaugeVec.With] accepts a label set only when it has as many entries
    as the collector has label names and gives a value to each of them;
    otherwise it panics. *)
Definition validLabels (names : list string) (labels : Labels) : bool :=
  bool_decide (size labels = length names)
  && forallb (fun n => bool_decide (is_Some (labels !! n))) names.

(** [c.With(labels).Set(v)] *)
Definition WithSet (c : Collector) (labels : Labels) (v : float) (r : Registry)
  : option Registry :=
  if validLabels (variableLabels c) labels
  then Some (<[c := <[labels := v]> (r c)]> r)
  else None.

(** Every element of [collectors] is a [*prometheus.GaugeVec], so the type
    assertion succeeds and each one is reset. *)
Definition ResetAllMetric (r : Registry) : Registry :=
  foldl (fun r c => <[c := ∅]> r) r collectors.

(** ** The body of the metrics loop of [main] *)

(** [for _, x := range l { ... }] over a body that may panic. *)
Fixpoint forEach {A S : Type} (body : A -> S -> option S) (l : list A) (s : S)
  : option S :=
  match l with
  | [] => Some s
  | x :: l => s ← body x s; forEach body l s
  end.

Definition baseLabel (a : HorizontalPodAutoscaler) : Labels :=
  {[ "hpa_name" := meta_Name (hpa_ObjectMeta a);
     "hpa_namespace" := meta_Namespace (hpa_ObjectMeta a);
     "ref_kind" := ref_Kind (spec_ScaleTargetRef (hpa_Spec a));
     "ref_name" := ref_Name (spec_ScaleTargetRef (hpa_Spec a));
     "ref_apiversion" := ref_APIVersion (spec_ScaleTargetRef (hpa_Spec a)) ]}.

(** The five replica and last-scale statements. *)
Definition projectReplicas (a : HorizontalPodAutoscaler) (r : Registry)
  : option Registry :=
  let baseLabel := baseLabel a in
  r ← WithSet HpaCurrentPodsNum baseLabel
        (float64_of_int (status_CurrentReplicas (hpa_Status a))) r;
  r ← WithSet HpaDesiredPodsNum baseLabel
        (float64_of_int (status_DesiredReplicas (hpa_Status a))) r;
  r ← match spec_MinReplicas (hpa_Spec a) with
      | Some n => WithSet HpaMinPodsNum baseLabel (float64_of_int n) r
      | None => Some r
      end;
  r ← WithSet HpaMaxPodsNum baseLabel
        (float64_of_int (spec_MaxReplicas (hpa_Spec a))) r;
  match status_LastScaleTime (hpa_Status a) with
  | Some t => WithSet HpaLastScaleSecond baseLabel (float64_of_int t) r
  | None => Some r
  end.

(** [v, l := ParseCommonMetrics(m); c.With(MergeLabels(baseLabel, l)).Set(v)] *)
Definition setCommonMetrics (c : Collector) (baseLabel : Labels)
    (m : option commonMetrics) (r : Registry) : option Registry :=
  m ← m;
  let '(v, l) := ParseCommonMetrics m in
  WithSet c (MergeLabels baseLabel l) v r.

(** One iteration of [for _, metric := range a.Spec.Metrics]. *)
Definition projectSpecMetric (baseLabel : Labels) (metric : MetricSpec)
    (r : Registry) : option Registry :=
  if decide (ms_Type metric = ObjectMetricSourceType) then
    setCommonMetrics HpaTargetMetricsValue baseLabel (ParseObjectSpec (ms_Object metric)) r
  else if decide (ms_Type metric = PodsMetricSourceType) then
    setCommonMetrics HpaTargetMetricsValue baseLabel (ParsePodsSpec (ms_Pods metric)) r
  else if decide (ms_Type metric = ResourceMetricSourceType) then
    setCommonMetrics HpaTargetMetricsValue baseLabel (ParseResourceSpec (ms_Resource metric)) r
  else if decide (ms_Type metric = ExternalMetricSourceType) then
    setCommonMetrics HpaTargetMetricsValue baseLabel (ParseExternalSpec (ms_External metric)) r
  else Some r.

(** One iteration of [for _, metric := range a.Status.CurrentMetrics]. *)
Definition projectStatusMetric (baseLabel : Labels) (metric : MetricStatus)
    (r : Registry) : option Registry :=
  if decide (mst_Type metric = ObjectMetricSourceType) then
    setCommonMetrics HpaCurrentMetricsValue baseLabel (ParseObjectStatus (mst_Object metric)) r
  else if decide (mst_Type metric = PodsMetricSourceType) then
    setCommonMetrics HpaCurrentMetricsValue baseLabel (ParsePodsStatus (mst_Pods metric)) r
  else if decide (mst_Type metric = ResourceMetricSourceType) then
    setCommonMetrics HpaCurrentMetricsValue baseLabel (ParseResourceStatus (mst_Resource metric)) r
  else if decide (mst_Type metric = ExternalMetricSourceType) then
    setCommonMetrics HpaCurrentMetricsValue baseLabel (ParseExternalStatus (mst_External metric)) r
  else Some r.

(** The two [Set] calls of one [case] of the condition switch. *)
Definition setCondition (c : Collector) (baseLabel annoLabel annoLabelRev : Labels)
    (r : Registry) : option Registry :=
  r ← WithSet c (MergeLabels baseLabel annoLabel) (float64_of_int 1) r;
  WithSet c (MergeLabels baseLabel annoLabelRev) (float64_of_int 0) r.

(** The gauge a condition type is reported on, when it is one of the
    three cases of the switch. *)
Definition conditionCollector (ty : string) : option Collector :=
  if decide (ty = AbleToScale) then Some HpaAbleToScale
  else if decide (ty = ScalingActive) then Some HpaScalingActive
  else if decide (ty = ScalingLimited) then Some HpaScalingLimited
  else None.

(** One iteration of [for _, cond := range a.Status.Conditions]. *)
Definition projectCondition (baseLabel : Labels)
    (cond : HorizontalPodAutoscalerCondition) (r : Registry) : option Registry :=
  let '(annoLabel, annoLabelRev) := MakeAnnotationCondLabels cond in
  match conditionCollector (cond_Type cond) with
  | Some c => setCondition c baseLabel annoLabel annoLabelRev r
  | None => Some r
  end.

(** One iteration of [for _, a := range hpa]. *)
Definition projectHPA (a : HorizontalPodAutoscaler) (r : Registry)
  : option Registry :=
  r ← projectReplicas a r;
  r ← forEach (projectSpecMetric (baseLabel a)) (spec_Metrics (hpa_Spec a)) r;
  r ← forEach (projectStatusMetric (baseLabel a))
        (status_CurrentMetrics (hpa_Status a)) r;
  forEach (projectCondition (baseLabel a)) (status_Conditions (hpa_Status a)) r.

(** ** Flags and the events of the two loops *)

Record Flags := {
  MetricsInterval : Z;
  LoggingInterval : Z;
  ConditionLogging : bool;
  LoggingTo : string;
  cwLogGroup : string;
  cwLogStream : string;
}.

Definition defaultFlags : Flags :=
  {| MetricsInterval := 30;
     LoggingInterval := 60;
     ConditionLogging := false;
     LoggingTo := "stdout";
     cwLogGroup := "hpa-exporter";
     cwLogStream := "condition-log" |}.

(** [ValidateFlags]: the error it returns, as its text, if any. *)
Definition ValidateFlags (fl : Flags) : option string :=
  if negb (bool_decide (LoggingTo fl = "stdout")
           || bool_decide (LoggingTo fl = "cwlogs"))
  then Some (String.append "invalid value `"
              (String.append (LoggingTo fl)
                 "` of flag `loggingTo`, specify either `stdout` or `cwlogs`"))
  else None.

(** Two's-complement wrap-around of int64 arithmetic. *)
Definition wrap64 (z : Z) : Z :=
  ((z + 2 ^ 63) mod 2 ^ 64 - 2 ^ 63)%Z.

(** [time.Duration(n) * time.Second], in nanoseconds. *)
Definition seconds (n : Z) : Z := wrap64 (n * 1000000000).

(** An opaque sequence token of the log store. *)
Definition Token := N.

Record InputLogEvent := {
  Message : string;
  Timestamp : Z;
}.

(** The requests sent to CloudWatch Logs. *)
Inductive Call :=
| DescribeLogGroups (LogGroupNamePrefix : string)
| CreateLogGroup (LogGroupName : string)
| DescribeLogStreams (LogGroupName LogStreamNamePrefix : string)
| CreateLogStream (LogGroupName LogStreamName : string)
| PutLogEvents (LogGroupName LogStreamName : string)
    (SequenceToken : option Token) (LogEvents : list InputLogEvent).

(** What a loop does that can be seen from outside it. *)
Inductive Event :=
| GetHpaListV2
| LogErrorln (err : string)
| LogInfoln (line : string)
| LogInfo (line : string)
| Sleep (nanoseconds : Z)
| Request (c : Call).

(** What [GetHpaListV2] returned: the items and the error. *)
Definition Fetched : Type := list HorizontalPodAutoscaler * option string.

(** ** The metrics loop of [main] *)

(** One iteration, from the fetch to the jump back to the head of the
    loop: the events in order, and the registry ([None] after a panic). *)
Definition metricsIteration (fl : Flags) (fetched : Fetched) (r : Registry)
  : list Event * option Registry :=
  let '(hpa, err) := fetched in
  match err with
  | Some err => ([GetHpaListV2; LogErrorln err], Some r)
  | None =>
    match forEach projectHPA hpa (ResetAllMetric r) with
    | Some r => ([GetHpaListV2; Sleep (seconds (MetricsInterval fl))], Some r)
    | None => ([GetHpaListV2], None)
    end
  end.

(** The loop, run for as many iterations as fetch results are given. *)
Fixpoint metricsLoop (fl : Flags) (fetches : list Fetched) (r : Registry)
  : list Event * option Registry :=
  match fetches with
  | [] => ([], Some r)
  | fetched :: fetches =>
    match metricsIteration fl fetched r with
    | (evs, Some r) =>
      let '(evs', r) := metricsLoop fl fetches r in (evs ++ evs', r)
    | (evs, None) => (evs, None)
    end
  end.

(** ** CloudWatch Logs, as far as the calls of this package observe it *)

Inductive CWError :=
| ResourceNotFoundException
| ResourceAlreadyExistsException
| InvalidSequenceTokenException
| InvalidParameterException.

Inductive Result (A : Type) :=
| Ok (a : A)
| Err (e : CWError).
Arguments Ok {A} a.
Arguments Err {A} e.

(** A stream of the store: the token its next append must carry (none
    for a stream that has never been written) and the batches accepted. *)
Record StreamState := {
  st_token : option Token;
  st_batches : list (list InputLogEvent);
}.

Record LogStream := {
  LogStreamName : string;
  UploadSequenceToken : option Token;
}.

(** Log groups by name, each with its streams by name. *)
Abbreviation Store := (gmap string (gmap string StreamState)).

Fixpoint HasPrefix (s prefix : string) : bool :=
  match prefix, s with
  | EmptyString, _ => true
  | String p prefix, String c s => bool_decide (c = p) && HasPrefix s prefix
  | String _ _, EmptyString => false
  end.

Fixpoint insertByName (x : string * StreamState) (l : list (string * StreamState))
  : list (string * StreamState) :=
  match l with
  | [] => [x]
  | y :: l => if String.leb x.1 y.1 then x :: y :: l else y :: insertByName x l
  end.

Definition sortByName (l : list (string * StreamState)) : list (string * StreamState) :=
  foldr insertByName [] l.

(** The names of the groups that start with the prefix. *)
Definition describeLogGroups (prefix : string) (s : Store) : Result (list string) :=
  Ok (filter (fun name => HasPrefix name prefix) (map fst (map_to_list s))).

Definition storeCreateLogGroup (group : string) (s : Store) : Result Store :=
  match s !! group with
  | Some _ => Err ResourceAlreadyExistsException
  | None => Ok (<[group := ∅]> s)
  end.

(** The streams of the group whose names start with the prefix, in the
    order of their names. *)
Definition describeLogStreams (group prefix : string) (s : Store)
  : Result (list LogStream) :=
  match s !! group with
  | None => Err ResourceNotFoundException
  | Some streams =>
    Ok (map (fun kv => {| LogStreamName := kv.1; UploadSequenceToken := st_token kv.2 |})
          (sortByName (filter (fun kv => HasPrefix kv.1 prefix) (map_to_list streams))))
  end.

Definition createLogStream (group name : string) (s : Store) : Result Store :=
  match s !! group with
  | None => Err ResourceNotFoundException
  | Some streams =>
    match streams !! name with
    | Some _ => Err ResourceAlreadyExistsException
    | None => Ok (<[group := <[name := {| st_token := None; st_batches := [] |}]> streams]> s)
    end
  end.

Definition nextToken (t : option Token) : Token :=
  match t with
  | None => 1%N
  | Some t => N.succ t
  end.

(** An append is accepted when the batch is not empty, the stream exists
    and the token is the one the stream expects; the stream then expects
    a new token. *)
Definition putLogEvents (group name : string) (t : option Token)
    (events : list InputLogEvent) (s : Store) : Result Store :=
  match events with
  | [] => Err InvalidParameterException
  | _ :: _ =>
    match s !! group with
    | None => Err ResourceNotFoundException
    | Some streams =>
      match streams !! name with
      | None => Err ResourceNotFoundException
      | Some st =>
        if decide (st_token st = t) then
          Ok (<[group := <[name := {| st_token := Some (nextToken (st_token st));
                                      st_batches := st_batches st ++ [events] |}]> streams]> s)
        else Err InvalidSequenceTokenException
      end
    end
  end.

(** ** Log shipment *)

Record conditions := {
  c_Name : string;
  c_Conditions : list HorizontalPodAutoscalerCondition;
}.

Section LogShipment.

(** [json.Marshal] on a [conditions] value: the encoding, or no value
    when it reports an error. *)
Variable Marshal : conditions -> option string.

Definition HpaConditionJsonString (hpa : HorizontalPodAutoscaler) : string :=
  let cond := {| c_Name := meta_Name (hpa_ObjectMeta hpa);
                 c_Conditions := status_Conditions (hpa_Status hpa) |} in
  match Marshal cond with
  | Some jsonBytes => jsonBytes
  | None => "{}"
  end.

(** Each function below returns its Go results, the store after it and
    the requests it sent, in order. *)

Definition createStream (fl : Flags) (s : Store)
  : option CWError * Store * list Call :=
  let input := CreateLogStream (cwLogGroup fl) (cwLogStream fl) in
  match createLogStream (cwLogGroup fl) (cwLogStream fl) s with
  | Ok s => (None, s, [input])
  | Err e => (Some e, s, [input])
  end.

Definition token (fl : Flags) (s : Store)
  : (option Token * option CWError) * Store * list Call :=
  let input := DescribeLogStreams (cwLogGroup fl) (cwLogStream fl) in
  match describeLogStreams (cwLogGroup fl) (cwLogStream fl) s with
  | Ok x =>
    match x with
    | [] => let '(err, s, calls) := createStream fl s in
            ((None, err), s, input :: calls)
    | first :: _ => ((UploadSequenceToken first, None), s, [input])
    end
  | Err e => ((None, Some e), s, [input])
  end.

Definition createLogGroup (fl : Flags) (s : Store)
  : option CWError * Store * list Call :=
  let input := CreateLogGroup (cwLogGroup fl) in
  match storeCreateLogGroup (cwLogGroup fl) s with
  | Ok s => (None, s, [input])
  | Err e => (Some e, s, [input])
  end.

Definition CheckLogGroup (fl : Flags) (s : Store)
  : option CWError * Store * list Call :=
  let input := DescribeLogGroups (cwLogGroup fl) in
  match describeLogGroups (cwLogGroup fl) s with
  | Ok r =>
    match r with
    | [] =>
      let '(e, s, calls) := createLogGroup fl s in
      match e with
      | Some e => (Some e, s, input :: calls)
      | None => (None, s, input :: calls)
      end
    | _ :: _ => (None, s, [input])
    end
  | Err e => (Some e, s, [input])
  end.

(** [now] is [time.Now().Unix()]; [others] is what other writers do to
    the store between the token lookup and the append. *)
Definition PutHPAConditionToCWLog (fl : Flags) (now : Z) (others : Store -> Store)
    (hpa : list HorizontalPodAutoscaler) (s : Store)
  : option CWError * Store * list Call :=
  let '((t, e), s, calls) := token fl s in
  match e with
  | Some e => (Some e, s, calls)
  | None =>
    let timestamp := wrap64 (now * 1000) in
    let cwevent :=
      map (fun a => {| Message := HpaConditionJsonString a; Timestamp := timestamp |}) hpa in
    let putEvent := PutLogEvents (cwLogGroup fl) (cwLogStream fl) t cwevent in
    let s := others s in
    match putLogEvents (cwLogGroup fl) (cwLogStream fl) t cwevent s with
    | Ok s => (None, s, calls ++ [putEvent])
    | Err err => (Some err, s, calls ++ [putEvent])
    end
  end.

(** One iteration of the logging loop of [main]. *)
Definition loggingIteration (fl : Flags) (fetched : Fetched) (now : Z)
    (others : Store -> Store) (s : Store) : list Event * Store :=
  let '(hpa, err) := fetched in
  match err with
  | Some err => ([GetHpaListV2; LogErrorln err], s)
  | None =>
    if decide (LoggingTo fl = "cwlogs") then
      let '(_, s, calls) := PutHPAConditionToCWLog fl now others hpa s in
      (GetHpaListV2 :: map Request calls ++ [Sleep (seconds (LoggingInterval fl))], s)
    else
      (GetHpaListV2 :: map (fun a => LogInfoln (HpaConditionJsonString a)) hpa
         ++ [Sleep (seconds (LoggingInterval fl))], s)
  end.

(** What stops [main] before its loops start. *)
Inductive Panic :=
| PanicFlags (e : string)
| PanicLogGroup (e : CWError).

(** [main] up to the start of its loops: the panic if it stops there,
    the store, and the events in order. *)
Definition startup (fl : Flags) (s : Store) : option Panic * Store * list Event :=
  match ValidateFlags fl with
  | Some e => (Some (PanicFlags e), s, [])
  | None =>
    if ConditionLogging fl then
      let '(e, s, calls) := CheckLogGroup fl s in
      match e with
      | Some e => (Some (PanicLogGroup e), s, map Request calls)
      | None => (None, s, map Request calls ++ [LogInfo "start HPA exporter"])
      end
    else (None, s, [LogInfo "start HPA exporter"])
  end.

End LogShipment.

(** ** Values used to state and instantiate the properties *)

(** The quantity [q] thousandths as the code decodes it. *)
Definition decoded (q : Z) : float :=
  PrimFloat.div (float64_of_int q) 1000%float.

Definition milli (q : Z) : Quantity := {| MilliValue := q |}.

(** An autoscaler with no metrics and no conditions, and a condition of
    unknown status, used to instantiate the statements. *)
Definition webHPA (minReplicas lastScale : option Z) : HorizontalPodAutoscaler :=
  {| hpa_ObjectMeta := {| meta_Name := "web"; meta_Namespace := "prod" |};
     hpa_Spec := {| spec_ScaleTargetRef :=
                      {| ref_Kind := "Deployment"; ref_Name := "web";
                         ref_APIVersion := "apps/v1" |};
                    spec_MinReplicas := minReplicas;
                    spec_MaxReplicas := 10;
                    spec_Metrics := [] |};
     hpa_Status := {| status_LastScaleTime := lastScale;
                      status_CurrentReplicas := 3;
                      status_DesiredReplicas := 3;
                      status_CurrentMetrics := [];
                      status_Conditions := [] |} |}.

(** The default flags with condition logging to CloudWatch Logs, a store
    whose group [hpa-exporter] holds one stream, and another writer that
    appends one record to the stream [condition-log] with token 5. *)
Definition cwFlags : Flags :=
  {| MetricsInterval := 30;
     LoggingInterval := 60;
     ConditionLogging := true;
     LoggingTo := "cwlogs";
     cwLogGroup := "hpa-exporter";
     cwLogStream := "condition-log" |}.

Definition streamStore (name : string) (st : StreamState) : Store :=
  {[ "hpa-exporter" := {[ name := st ]} ]}.

Definition otherWriter (s : Store) : Store :=
  match putLogEvents "hpa-exporter" "condition-log" (Some 5%N)
          [{| Message := "other"; Timestamp := 0 |}] s with
  | Ok s => s
  | Err _ => s
  end.

(** The registries agree on every collector outside [cs]. *)
Definition sameOutside (cs : list Collector) (r r' : Registry) : Prop :=
  forall c, c ∉ cs -> r' c = r c.





(** Two outcomes of a step that may panic: both panic, or both give
    registries with the same contents. *)
Definition sameOutcome (o1 o2 : option Registry) : Prop :=
  match o1, o2 with
  | Some r1, Some r2 => forall c, r1 c = r2 c
  | None, None => True
  | _, _ => False
  end.

(** * Properties *)

(** ** Label sets *)

Lemma fold_insert_union (b m : Labels) :
  map_fold (fun k v (ans : Labels) => <[k := v]> ans) b m = m ∪ b.
Proof.
  apply (map_fold_weak_ind (fun (r : Labels) (m : Labels) => r = m ∪ b)).
  - by rewrite (left_id_L ∅ (∪)).
  - intros i x m' r _ ->. by rewrite insert_union_l.
Qed.

(** Merging copies [m1] and then lets [m2] overwrite it. *)
Lemma MergeLabels_union (m1 m2 : Labels) : MergeLabels m1 m2 = m2 ∪ m1.
Proof.
  unfold MergeLabels. rewrite !fold_insert_union.
  by rewrite (right_id_L ∅ (∪)).
Qed.


Lemma MergeLabels_lookup_l (m1 m2 : Labels) k :
  m2 !! k = None -> MergeLabels m1 m2 !! k = m1 !! k.
Proof. intros H. rewrite MergeLabels_union. by apply lookup_union_r. Qed.

Lemma MergeLabels_dom (m1 m2 : Labels) :
  dom (MergeLabels m1 m2) = dom m1 ∪ dom m2.
Proof. rewrite MergeLabels_union, dom_union_L. apply (comm_L (∪)). Qed.

Lemma baseLabel_dom a : dom (baseLabel a) = list_to_set baseLabels.
Proof. reflexivity. Qed.

(** ** Numbers *)




(** ** Condition labels *)

Lemma MakeAnnotationCondLabels_fwd cond :
  (MakeAnnotationCondLabels cond).1 =
  {[ "cond_status" := cond_Status cond;
     "cond_reason" := cond_Reason cond;
     "cond_message" := cond_Message cond ]}.
Proof. reflexivity. Qed.


(** C10: the reverse label set carries cond_status "False" exactly when
    the condition's own status is "True", and "True" in every other case,
    for instance for the status "Unknown". *)
Theorem C10_reverse_status_is_not_a_negation cond :
  ((MakeAnnotationCondLabels cond).2 !! "cond_status" = Some "False"
   <-> cond_Status cond = ConditionTrue)
  /\ ((MakeAnnotationCondLabels cond).2 !! "cond_status" = Some "True"
      <-> cond_Status cond <> ConditionTrue)
  /\ (MakeAnnotationCondLabels
        {| cond_Type := cond_Type cond; cond_Status := ConditionUnknown;
           cond_LastTransitionTime := cond_LastTransitionTime cond;
           cond_Reason := cond_Reason cond;
           cond_Message := cond_Message cond |}).2 !! "cond_status" = Some "True".
Proof.
  unfold MakeAnnotationCondLabels, Sprintf_v, ConditionTrue, ConditionFalse.
  split; [|split]; [| |reflexivity].
  - destruct (decide (cond_Status cond = "True")) as [E|E]; cbn;
      rewrite lookup_insert_eq; split; congruence.
  - destruct (decide (cond_Status cond = "True")) as [E|E]; cbn;
      rewrite lookup_insert_eq; split; congruence.
Qed.

(** ** The extractors *)

(** C2: for each of the four kinds, the extractor of a target entry and
    the extractor of a current entry, on entries whose value is read from
    a quantity of [q] thousandths, both give the value [q / 1000]. For the
    resource kind the value is read from the average value when no
    utilization is given; for the external kind it is read from the average
    value when there is one and from the plain value otherwise. *)
Theorem C2_spec_and_status_agree (q : Z) :
  (forall target name,
     Value <$> ParseObjectSpec
       (Some {| oms_Target := target; oms_MetricName := name;
                oms_TargetValue := milli q |}) = Some (decoded q)
     /\ Value <$> ParseObjectStatus
       (Some {| omst_Target := target; omst_MetricName := name;
                omst_CurrentValue := milli q |}) = Some (decoded q))
  /\ (forall name,
     Value <$> ParsePodsSpec
       (Some {| pms_MetricName := name; pms_TargetAverageValue := milli q |})
       = Some (decoded q)
     /\ Value <$> ParsePodsStatus
       (Some {| pmst_MetricName := name; pmst_CurrentAverageValue := milli q |})
       = Some (decoded q))
  /\ (forall name,
     Value <$> ParseResourceSpec
       (Some {| rms_Name := name; rms_TargetAverageUtilization := None;
                rms_TargetAverageValue := Some (milli q) |}) = Some (decoded q)
     /\ Value <$> ParseResourceStatus
       (Some {| rmst_Name := name; rmst_CurrentAverageUtilization := None;
                rmst_CurrentAverageValue := milli q |}) = Some (decoded q))
  /\ (forall name plain plain',
     Value <$> ParseExternalSpec
       (Some {| ems_MetricName := name; ems_TargetValue := Some (milli q);
                ems_TargetAverageValue := None |}) = Some (decoded q)
     /\ Value <$> ParseExternalSpec
       (Some {| ems_MetricName := name; ems_TargetValue := plain;
                ems_TargetAverageValue := Some (milli q) |}) = Some (decoded q)
     /\ Value <$> ParseExternalStatus
       (Some {| emst_MetricName := name; emst_CurrentValue := milli q;
                emst_CurrentAverageValue := None |}) = Some (decoded q)
     /\ Value <$> ParseExternalStatus
       (Some {| emst_MetricName := name; emst_CurrentValue := plain';
                emst_CurrentAverageValue := Some (milli q) |}) = Some (decoded q)).
Proof. repeat split. Qed.

Example decoded_1500 : decoded 1500 = 1.5%float.
Proof. reflexivity. Qed.

(** C6: a resource entry with a utilization gives that utilization as
    its value, whatever its average value, and the metric name "-"; with
    no utilization and an average value of 1500 thousandths it gives 1.5.
    The same holds for the extractor of current readings. *)
Theorem C6_resource_value (name : string) (u : Z) :
  (forall avg,
     ParseResourceSpec
       (Some {| rms_Name := name; rms_TargetAverageUtilization := Some u;
                rms_TargetAverageValue := avg |})
     = Some {| Kind := "Resource"; Name := name; MetricName := "-";
               Value := float64_of_int u |})
  /\ (forall avg,
     ParseResourceStatus
       (Some {| rmst_Name := name; rmst_CurrentAverageUtilization := Some u;
                rmst_CurrentAverageValue := avg |})
     = Some {| Kind := "Resource"; Name := name; MetricName := "-";
               Value := float64_of_int u |})
  /\ float64_of_int 80 = 80%float
  /\ ParseResourceSpec
       (Some {| rms_Name := name; rms_TargetAverageUtilization := None;
                rms_TargetAverageValue := Some (milli 1500) |})
     = Some {| Kind := "Resource"; Name := name; MetricName := "-";
               Value := 1.5%float |}
  /\ ParseResourceStatus
       (Some {| rmst_Name := name; rmst_CurrentAverageUtilization := None;
                rmst_CurrentAverageValue := milli 1500 |})
     = Some {| Kind := "Resource"; Name := name; MetricName := "-";
               Value := 1.5%float |}.
Proof. repeat split. Qed.

(** C7: an external entry with no average value and a target value of
    2000 thousandths gives kind "External", name "-" and value 2.0; when
    an average value is present, the value is read from it and the target
    value is not looked at. *)
Theorem C7_external_value (name : string) :
  ParseExternalSpec
    (Some {| ems_MetricName := name; ems_TargetValue := Some (milli 2000);
             ems_TargetAverageValue := None |})
  = Some {| Kind := "External"; Name := "-"; MetricName := name;
            Value := 2%float |}
  /\ (forall q plain,
     ParseExternalSpec
       (Some {| ems_MetricName := name; ems_TargetValue := plain;
                ems_TargetAverageValue := Some (milli q) |})
     = Some {| Kind := "External"; Name := "-"; MetricName := name;
               Value := decoded q |})
  /\ (forall q plain,
     ParseExternalStatus
       (Some {| emst_MetricName := name; emst_CurrentValue := plain;
                emst_CurrentAverageValue := Some (milli q) |})
     = Some {| Kind := "External"; Name := "-"; MetricName := name;
               Value := decoded q |})
  /\ ParseExternalStatus
       (Some {| emst_MetricName := name; emst_CurrentValue := milli 2000;
                emst_CurrentAverageValue := None |})
     = Some {| Kind := "External"; Name := "-"; MetricName := name;
               Value := 2%float |}.
Proof. repeat split. Qed.

(** C9, as stated, fails: the pods and external extractors copy the
    entry's metric name, and the resource extractor copies the resource
    name, so those fields are not the sentinel. *)
Lemma C9_counterexample :
  ~ (forall m r, ParsePodsSpec (Some m) = Some r ->
                 Name r = "-" /\ MetricName r = "-")
  /\ ~ (forall m r, ParseResourceSpec (Some m) = Some r ->
                    Name r = "-" /\ MetricName r = "-")
  /\ ~ (forall m r, ParseExternalSpec (Some m) = Some r ->
                    Name r = "-" /\ MetricName r = "-").
Proof.
  split; [|split]; intros H.
  - destruct (H {| pms_MetricName := "qps"; pms_TargetAverageValue := milli 1500 |}
                _ eq_refl) as [_ D]. discriminate D.
  - destruct (H {| rms_Name := "cpu"; rms_TargetAverageUtilization := Some 80%Z;
                   rms_TargetAverageValue := None |} _ eq_refl) as [D _].
    discriminate D.
  - destruct (H {| ems_MetricName := "queue_depth";
                   ems_TargetValue := Some (milli 2000);
                   ems_TargetAverageValue := None |} _ eq_refl) as [_ D].
    discriminate D.
Qed.

(** C9, amended: the pods and external extractors give the name "-" and
    the entry's own metric name; the resource extractors give the metric
    name "-" and the resource's name. *)
Theorem C9_sentinel_fields :
  (forall m r, ParsePodsSpec (Some m) = Some r ->
     Name r = "-" /\ MetricName r = pms_MetricName m)
  /\ (forall m r, ParsePodsStatus (Some m) = Some r ->
     Name r = "-" /\ MetricName r = pmst_MetricName m)
  /\ (forall m r, ParseExternalSpec (Some m) = Some r ->
     Name r = "-" /\ MetricName r = ems_MetricName m)
  /\ (forall m r, ParseExternalStatus (Some m) = Some r ->
     Name r = "-" /\ MetricName r = emst_MetricName m)
  /\ (forall m r, ParseResourceSpec (Some m) = Some r ->
     MetricName r = "-" /\ Name r = rms_Name m)
  /\ (forall m r, ParseResourceStatus (Some m) = Some r ->
     MetricName r = "-" /\ Name r = rmst_Name m).
Proof.
  repeat apply conj; intros m r H; destruct m; cbn in H;
    repeat match type of H with
    | context [@mbind option _ _ _ _ ?x] => destruct x; cbn in H
    | context [match ?x with _ => _ end] => destruct x; cbn in H
    end; simplify_eq; split; reflexivity.
Qed.

Lemma C9_sentinel_fields_witness :
  Name {| Kind := "Pod"; Name := "-"; MetricName := "qps";
          Value := decoded 1500 |} = "-"
  /\ MetricName {| Kind := "Pod"; Name := "-"; MetricName := "qps";
                   Value := decoded 1500 |} = "qps".
Proof.
  exact (proj1 C9_sentinel_fields
           {| pms_MetricName := "qps"; pms_TargetAverageValue := milli 1500 |}
           _ eq_refl).
Defined.

(** ** Setting gauges *)

Lemma WithSet_inv c labels v (r r' : Registry) :
  WithSet c labels v r = Some r' ->
  r' = <[c := <[labels := v]> (r c)]> r.
Proof. unfold WithSet. case_match; congruence. Qed.

Lemma WithSet_same c labels v (r r' : Registry) :
  WithSet c labels v r = Some r' -> r' c = <[labels := v]> (r c).
Proof. intros ->%WithSet_inv. apply fn_lookup_insert. Qed.

Lemma WithSet_other c c' labels v (r r' : Registry) :
  WithSet c labels v r = Some r' -> c <> c' -> r' c' = r c'.
Proof. intros ->%WithSet_inv ?. by apply fn_lookup_insert_ne. Qed.

Lemma validLabels_base a : validLabels baseLabels (baseLabel a) = true.
Proof. reflexivity. Qed.








(** ** Projection of one autoscaler *)

(** Membership of a collector in an explicit list. *)
Ltac collector_in :=
  repeat first [ apply list_elem_of_here | apply list_elem_of_further ].
Ltac collector_notin :=
  let Hin := fresh in
  intros Hin;
  repeat (apply elem_of_cons in Hin as [Hin|Hin];
          [first [discriminate Hin | congruence]|]);
  by apply elem_of_nil in Hin.

Lemma forEach_invariant {A S : Type} (P : S -> S -> Prop)
    (body : A -> S -> option S) :
  (forall s, P s s) ->
  (forall s1 s2 s3, P s1 s2 -> P s2 s3 -> P s1 s3) ->
  (forall x s s', body x s = Some s' -> P s s') ->
  forall l s s', forEach body l s = Some s' -> P s s'.
Proof.
  intros Hrefl Htrans Hbody l. induction l as [|x l IH]; intros s s' H; cbn in H.
  - simplify_eq. apply Hrefl.
  - destruct (body x s) as [s1|] eqn:E; cbn in H; [|discriminate].
    eapply Htrans; [eapply Hbody; eassumption | by apply IH].
Qed.

Lemma sameOutside_refl cs r : sameOutside cs r r.
Proof. by intros c _. Qed.

Lemma sameOutside_trans cs r1 r2 r3 :
  sameOutside cs r1 r2 -> sameOutside cs r2 r3 -> sameOutside cs r1 r3.
Proof. intros H12 H23 c Hc. by rewrite H23, H12. Qed.

Lemma WithSet_sameOutside cs c labels v r r' :
  c ∈ cs -> WithSet c labels v r = Some r' -> sameOutside cs r r'.
Proof.
  intros Hin H c' Hc'. eapply WithSet_other; [eassumption|]. intros ->. by apply Hc'.
Qed.

Lemma setCommonMetrics_sameOutside c base m r r' :
  setCommonMetrics c base m r = Some r' -> sameOutside [c] r r'.
Proof.
  unfold setCommonMetrics. destruct m as [m|]; cbn; [|discriminate].
  apply WithSet_sameOutside. collector_in.
Qed.

Lemma projectSpecMetric_sameOutside base metric r r' :
  projectSpecMetric base metric r = Some r' ->
  sameOutside [HpaTargetMetricsValue] r r'.
Proof.
  unfold projectSpecMetric. repeat case_decide;
    try apply setCommonMetrics_sameOutside.
  intros; simplify_eq. apply sameOutside_refl.
Qed.

Lemma projectStatusMetric_sameOutside base metric r r' :
  projectStatusMetric base metric r = Some r' ->
  sameOutside [HpaCurrentMetricsValue] r r'.
Proof.
  unfold projectStatusMetric. repeat case_decide;
    try apply setCommonMetrics_sameOutside.
  intros; simplify_eq. apply sameOutside_refl.
Qed.

Lemma projectCondition_sameOutside base cond r r' :
  projectCondition base cond r = Some r' ->
  sameOutside [HpaAbleToScale; HpaScalingActive; HpaScalingLimited] r r'.
Proof.
  unfold projectCondition.
  destruct (MakeAnnotationCondLabels cond) as [fwd rev].
  destruct (conditionCollector (cond_Type cond)) as [c|] eqn:Hc.
  - assert (c ∈ [HpaAbleToScale; HpaScalingActive; HpaScalingLimited]) as Hin.
    { revert Hc. unfold conditionCollector.
      repeat case_decide; intros; simplify_eq; collector_in. }
    unfold setCondition. intros H.
    destruct (WithSet c (MergeLabels base fwd) (float64_of_int 1) r) as [r1|] eqn:E1;
      cbn in H; [|discriminate].
    eapply sameOutside_trans; eapply WithSet_sameOutside; eassumption.
  - intros; simplify_eq. apply sameOutside_refl.
Qed.

(** The five replica statements never panic, and write as follows. *)
Lemma projectReplicas_spec a (r : Registry) :
  exists r1,
    projectReplicas a r = Some r1
    /\ r1 HpaCurrentPodsNum
       = <[baseLabel a := float64_of_int (status_CurrentReplicas (hpa_Status a))]>
           (r HpaCurrentPodsNum)
    /\ r1 HpaDesiredPodsNum
       = <[baseLabel a := float64_of_int (status_DesiredReplicas (hpa_Status a))]>
           (r HpaDesiredPodsNum)
    /\ r1 HpaMaxPodsNum
       = <[baseLabel a := float64_of_int (spec_MaxReplicas (hpa_Spec a))]>
           (r HpaMaxPodsNum)
    /\ r1 HpaMinPodsNum
       = match spec_MinReplicas (hpa_Spec a) with
         | Some n => <[baseLabel a := float64_of_int n]> (r HpaMinPodsNum)
         | None => r HpaMinPodsNum
         end
    /\ r1 HpaLastScaleSecond
       = match status_LastScaleTime (hpa_Status a) with
         | Some t => <[baseLabel a := float64_of_int t]> (r HpaLastScaleSecond)
         | None => r HpaLastScaleSecond
         end
    /\ sameOutside [HpaCurrentPodsNum; HpaDesiredPodsNum; HpaMinPodsNum;
                    HpaMaxPodsNum; HpaLastScaleSecond] r r1.
Proof.
  unfold projectReplicas, WithSet. cbn [variableLabels].
  rewrite !validLabels_base. cbv [mbind option_bind].
  destruct (spec_MinReplicas (hpa_Spec a)) as [n|];
    destruct (status_LastScaleTime (hpa_Status a)) as [t|];
    rewrite ?validLabels_base;
    (eexists; split; [reflexivity|]);
    repeat apply conj; try reflexivity;
    intros c Hc; destruct c; try reflexivity; exfalso; apply Hc; collector_in.
Qed.

Lemma ResetAllMetric_empty (r : Registry) c : ResetAllMetric r c = ∅.
Proof. destruct c; reflexivity. Qed.

Lemma projectHPA_frame a (r r1 r' : Registry) :
  projectReplicas a r = Some r1 ->
  projectHPA a r = Some r' ->
  sameOutside [HpaTargetMetricsValue; HpaCurrentMetricsValue;
               HpaAbleToScale; HpaScalingActive; HpaScalingLimited] r1 r'.
Proof.
  unfold projectHPA. intros -> H. cbn [mbind option_bind] in H.
  destruct (forEach (projectSpecMetric (baseLabel a)) _ r1) as [r2|] eqn:E2;
    cbn [mbind option_bind] in H; [|discriminate].
  destruct (forEach (projectStatusMetric (baseLabel a)) _ r2) as [r3|] eqn:E3;
    cbn [mbind option_bind] in H; [|discriminate].
  apply (forEach_invariant (sameOutside [HpaTargetMetricsValue])) in E2;
    [|apply sameOutside_refl|apply sameOutside_trans
     |apply projectSpecMetric_sameOutside].
  apply (forEach_invariant (sameOutside [HpaCurrentMetricsValue])) in E3;
    [|apply sameOutside_refl|apply sameOutside_trans
     |apply projectStatusMetric_sameOutside].
  apply (forEach_invariant
           (sameOutside [HpaAbleToScale; HpaScalingActive; HpaScalingLimited])) in H;
    [|apply sameOutside_refl|apply sameOutside_trans
     |apply projectCondition_sameOutside].
  intros c Hc. apply not_elem_of_cons in Hc as [? Hc].
  apply not_elem_of_cons in Hc as [? Hc].
  rewrite (H c Hc).
  rewrite (E3 c) by collector_notin.
  rewrite (E2 c) by collector_notin. reflexivity.
Qed.



(** ** The metrics loop *)

Lemma metricsLoop_cons_error fl hpa err rest (r : Registry) :
  metricsLoop fl ((hpa, Some err) :: rest) r
  = ([GetHpaListV2; LogErrorln err] ++ (metricsLoop fl rest r).1,
     (metricsLoop fl rest r).2).
Proof.
  cbn [metricsLoop metricsIteration].
  by destruct (metricsLoop fl rest r).
Qed.

(** C3: when the fetch of the metrics loop returns an error, the loop logs
    it and neither resets nor projects, so the registry is the one the
    iteration began with; but it jumps back to the head of the loop
    without sleeping, so the next fetch follows the log line at once,
    whereas an iteration whose fetch succeeded ends by sleeping for the
    metrics interval. *)
Theorem C3_fetch_error_retries_without_sleep fl hpa err next rest (r : Registry) :
  metricsIteration fl (hpa, Some err) r = ([GetHpaListV2; LogErrorln err], Some r)
  /\ metricsLoop fl ((hpa, Some err) :: next :: rest) r
     = ([GetHpaListV2; LogErrorln err] ++ (metricsLoop fl (next :: rest) r).1,
        (metricsLoop fl (next :: rest) r).2)
  /\ head (metricsLoop fl (next :: rest) r).1 = Some GetHpaListV2
  /\ match metricsIteration fl (hpa, None) r with
     | (evs, Some _) => evs = [GetHpaListV2; Sleep (seconds (MetricsInterval fl))]
     | (evs, None) => evs = [GetHpaListV2]
     end.
Proof.
  split; [reflexivity|]. split; [apply metricsLoop_cons_error|]. split.
  - cbn [metricsLoop]. destruct next as [items [e|]]; cbn [metricsIteration].
    + by destruct (metricsLoop fl rest r).
    + destruct (forEach projectHPA items (ResetAllMetric r)) as [r1|]; [|done].
      by destruct (metricsLoop fl rest r1).
  - cbn [metricsIteration].
    by destruct (forEach projectHPA hpa (ResetAllMetric r)).
Qed.

(** ** Log shipment *)

(** C4: with the stream at token 5 and another writer appending between
    the token lookup and the append, the shipment returns the store's
    token error and leaves the store as the other writer left it; the
    logging loop drops that error, so nothing is logged, and sleeps for
    the logging interval; in the next iteration the token is looked up
    again and the append is accepted with the stream's new token. *)
Theorem C4_append_error_is_returned_and_dropped
    (Marshal : conditions -> option string) now now' a hpa :
  let s := streamStore "condition-log" {| st_token := Some 5%N; st_batches := [] |} in
  let batch t :=
    map (fun a => {| Message := HpaConditionJsonString Marshal a;
                     Timestamp := wrap64 (t * 1000) |}) (a :: hpa) in
  let describe := DescribeLogStreams "hpa-exporter" "condition-log" in
  let other := {| Message := "other"; Timestamp := 0 |} in
  otherWriter s
  = streamStore "condition-log" {| st_token := Some 6%N; st_batches := [[other]] |}
  /\ PutHPAConditionToCWLog Marshal cwFlags now otherWriter (a :: hpa) s
     = (Some InvalidSequenceTokenException, otherWriter s,
        [describe;
         PutLogEvents "hpa-exporter" "condition-log" (Some 5%N) (batch now)])
  /\ loggingIteration Marshal cwFlags (a :: hpa, None) now otherWriter s
     = ([GetHpaListV2; Request describe;
         Request (PutLogEvents "hpa-exporter" "condition-log" (Some 5%N) (batch now));
         Sleep 60000000000],
        otherWriter s)
  /\ loggingIteration Marshal cwFlags (a :: hpa, None) now' id (otherWriter s)
     = ([GetHpaListV2; Request describe;
         Request (PutLogEvents "hpa-exporter" "condition-log" (Some 6%N) (batch now'));
         Sleep 60000000000],
        streamStore "condition-log"
          {| st_token := Some 7%N; st_batches := [[other]; batch now'] |}).
Proof.
  repeat apply conj; reflexivity.
Qed.

(** C5: when the group holds no stream named [condition-log] but one
    named [condition-log-old], the lookup by prefix returns that stream:
    the shipment sends no request to create the configured stream,
    appends with the other stream's token, and returns the store's error
    that the stream does not exist; the store is unchanged, so every
    later call does the same. *)
Theorem C5_stream_with_the_same_prefix
    (Marshal : conditions -> option string) now a :
  let old := {| st_token := Some 7%N; st_batches := [] |} in
  let s := streamStore "condition-log-old" old in
  let record := {| Message := HpaConditionJsonString Marshal a;
                   Timestamp := wrap64 (now * 1000) |} in
  s !! "hpa-exporter" ≫= (.!! "condition-log") = None
  /\ token cwFlags s
     = ((Some 7%N, None), s, [DescribeLogStreams "hpa-exporter" "condition-log"])
  /\ PutHPAConditionToCWLog Marshal cwFlags now id [a] s
     = (Some ResourceNotFoundException, s,
        [DescribeLogStreams "hpa-exporter" "condition-log";
         PutLogEvents "hpa-exporter" "condition-log" (Some 7%N) [record]]).
Proof.
  repeat apply conj; reflexivity.
Qed.

(** ** Label sets handed to the gauges *)

(** X1: [MergeLabels] holds every key of either map, and on a key of both
    the value of the second map. *)
Theorem MergeLabels_lookup (m1 m2 : Labels) (k : string) :
  MergeLabels m1 m2 !! k
  = match m2 !! k with
    | Some v => Some v
    | None => m1 !! k
    end.
Proof.
  rewrite MergeLabels_union, lookup_union.
  destruct (m2 !! k), (m1 !! k); reflexivity.
Qed.


(** ** The extractors on missing payloads *)

(** X3: an extractor panics exactly when its pointer is nil or, for the
    resource and external targets, when the quantity it falls back to is
    nil as well; the status extractors panic only on a nil pointer. *)
Theorem extractors_panic_exactly_on_nil :
  (forall m, ParseObjectSpec m = None <-> m = None)
  /\ (forall m, ParsePodsSpec m = None <-> m = None)
  /\ (forall m, ParseResourceSpec m = None <->
        m = None \/ exists x, m = Some x
                              /\ rms_TargetAverageUtilization x = None
                              /\ rms_TargetAverageValue x = None)
  /\ (forall m, ParseExternalSpec m = None <->
        m = None \/ exists x, m = Some x
                              /\ ems_TargetAverageValue x = None
                              /\ ems_TargetValue x = None)
  /\ (forall m, ParseObjectStatus m = None <-> m = None)
  /\ (forall m, ParsePodsStatus m = None <-> m = None)
  /\ (forall m, ParseResourceStatus m = None <-> m = None)
  /\ (forall m, ParseExternalStatus m = None <-> m = None).
Proof.
  assert (forall A (x : A) (o : option commonMetrics),
             is_Some o -> o = None <-> Some x = None) as simple.
  { intros A x o [y ->]. split; discriminate. }
  repeat apply conj; intros [x|];
    try (split; reflexivity);
    try (apply simple; by eexists);
    try (split; [by left|reflexivity]).
  - destruct x as [n [u|] [q|]]; cbn; split; try discriminate;
      try (intros [H|(y & H & H1 & H2)]; simplify_eq; cbn in *; congruence).
    intros _. right. by eexists.
  - destruct x as [n [q|] [q'|]]; cbn; split; try discriminate;
      try (intros [H|(y & H & H1 & H2)]; simplify_eq; cbn in *; congruence).
    intros _. right. by eexists.
Qed.

(** X4: the value and the three metric labels carry all four fields of an
    extracted metric: two metrics with the same value and labels are the
    same metric. *)
Theorem ParseCommonMetrics_inj m m' :
  ParseCommonMetrics m = ParseCommonMetrics m' -> m = m'.
Proof.
  destruct m as [k n mn v], m' as [k' n' mn' v']. unfold ParseCommonMetrics. cbn.
  intros H.
  pose proof (f_equal fst H) as Hv.
  pose proof (f_equal (fun x : float * Labels => x.2 !! "metric_kind") H) as Hk.
  pose proof (f_equal (fun x : float * Labels => x.2 !! "metric_name") H) as Hn.
  pose proof (f_equal (fun x : float * Labels => x.2 !! "metric_metricname") H) as Hm.
  clear H. cbn in Hv, Hk, Hn, Hm. simplify_map_eq. reflexivity.
Qed.

Lemma ParseCommonMetrics_inj_witness :
  {| Kind := "Pod"; Name := "-"; MetricName := "qps"; Value := 1%float |}
  = {| Kind := "Pod"; Name := "-"; MetricName := "qps"; Value := 1%float |}.
Proof. apply ParseCommonMetrics_inj. reflexivity. Defined.

(** ** Metric entries in the loop *)

(** X5: a metric entry whose type is none of Object, Pods, Resource and
    External is skipped: the registry is unchanged and nothing panics,
    whatever its pointers are. *)
Theorem unknown_metric_type_is_skipped base spec status (r : Registry) :
  ms_Type spec ∉ [ObjectMetricSourceType; PodsMetricSourceType;
                  ResourceMetricSourceType; ExternalMetricSourceType] ->
  mst_Type status ∉ [ObjectMetricSourceType; PodsMetricSourceType;
                     ResourceMetricSourceType; ExternalMetricSourceType] ->
  projectSpecMetric base spec r = Some r
  /\ projectStatusMetric base status r = Some r.
Proof.
  intros H1 H2. split.
  - unfold projectSpecMetric.
    repeat case_decide; try reflexivity; exfalso; apply H1;
      match goal with E : ms_Type spec = _ |- _ => rewrite E end; collector_in.
  - unfold projectStatusMetric.
    repeat case_decide; try reflexivity; exfalso; apply H2;
      match goal with E : mst_Type status = _ |- _ => rewrite E end; collector_in.
Qed.

Lemma unknown_metric_type_is_skipped_witness :
  projectSpecMetric ∅
    {| ms_Type := "ContainerResource"; ms_Object := None; ms_Pods := None;
       ms_Resource := None; ms_External := None |} (fun _ => ∅)
  = Some (fun _ => ∅)
  /\ projectStatusMetric ∅
       {| mst_Type := ""; mst_Object := None; mst_Pods := None;
          mst_Resource := None; mst_External := None |} (fun _ => ∅)
     = Some (fun _ => ∅).
Proof.
  apply unknown_metric_type_is_skipped; cbn;
    intros H; repeat (apply elem_of_cons in H as [H|H]; [discriminate H|]);
    by apply elem_of_nil in H.
Defined.










(** ** What one iteration leaves in the registry *)

Lemma projectHPA_always_set a (r r' : Registry) c :
  projectHPA a r = Some r' ->
  c ∈ [HpaCurrentPodsNum; HpaDesiredPodsNum; HpaMaxPodsNum] ->
  exists v, r' c = <[baseLabel a := v]> (r c).
Proof.
  intros H Hc.
  destruct (projectReplicas_spec a r) as (r1 & E1 & Hcur & Hdes & Hmax & _).
  pose proof (projectHPA_frame a r r1 r' E1 H) as F.
  destruct c; try (exfalso; revert Hc; clear; collector_notin); clear Hc.
  - exists (float64_of_int (status_CurrentReplicas (hpa_Status a))).
    exact (eq_trans (F HpaCurrentPodsNum ltac:(collector_notin)) Hcur).
  - exists (float64_of_int (status_DesiredReplicas (hpa_Status a))).
    exact (eq_trans (F HpaDesiredPodsNum ltac:(collector_notin)) Hdes).
  - exists (float64_of_int (spec_MaxReplicas (hpa_Spec a))).
    exact (eq_trans (F HpaMaxPodsNum ltac:(collector_notin)) Hmax).
Qed.

Lemma projectHPA_replica_entries a (r r' : Registry) c :
  projectHPA a r = Some r' ->
  c ∈ [HpaCurrentPodsNum; HpaDesiredPodsNum; HpaMinPodsNum; HpaMaxPodsNum;
       HpaLastScaleSecond] ->
  r' c = r c \/ exists v, r' c = <[baseLabel a := v]> (r c).
Proof.
  intros H Hc.
  destruct (projectReplicas_spec a r)
    as (r1 & E1 & Hcur & Hdes & Hmax & Hmin & Hlast & _).
  pose proof (projectHPA_frame a r r1 r' E1 H) as F.
  destruct c; try (exfalso; revert Hc; clear; collector_notin); clear Hc.
  - right. exists (float64_of_int (status_CurrentReplicas (hpa_Status a))).
    exact (eq_trans (F HpaCurrentPodsNum ltac:(collector_notin)) Hcur).
  - right. exists (float64_of_int (status_DesiredReplicas (hpa_Status a))).
    exact (eq_trans (F HpaDesiredPodsNum ltac:(collector_notin)) Hdes).
  - pose proof (F HpaMinPodsNum ltac:(collector_notin)) as F1.
    destruct (spec_MinReplicas (hpa_Spec a)) as [n|].
    + right. exists (float64_of_int n). exact (eq_trans F1 Hmin).
    + left. exact (eq_trans F1 Hmin).
  - right. exists (float64_of_int (spec_MaxReplicas (hpa_Spec a))).
    exact (eq_trans (F HpaMaxPodsNum ltac:(collector_notin)) Hmax).
  - pose proof (F HpaLastScaleSecond ltac:(collector_notin)) as F1.
    destruct (status_LastScaleTime (hpa_Status a)) as [t|].
    + right. exists (float64_of_int t). exact (eq_trans F1 Hlast).
    + left. exact (eq_trans F1 Hlast).
Qed.

(** X7: projecting one autoscaler leaves, in each of the five replica
    gauges, the entry of every label set other than its own base label
    set as it was: autoscalers that differ in a base label never
    overwrite each other. *)
Theorem projection_keeps_other_label_sets a (r r' : Registry) c (l : Labels) :
  projectHPA a r = Some r' ->
  c ∈ [HpaCurrentPodsNum; HpaDesiredPodsNum; HpaMinPodsNum; HpaMaxPodsNum;
       HpaLastScaleSecond] ->
  l <> baseLabel a ->
  r' c !! l = r c !! l.
Proof.
  intros H Hc Hl.
  destruct (projectHPA_replica_entries a r r' c H Hc) as [->|[v ->]]; [reflexivity|].
  apply lookup_insert_ne. congruence.
Qed.

Lemma projection_keeps_other_label_sets_witness :
  exists r',
    projectHPA (webHPA (Some 2%Z) None) (fun _ => {[ (∅ : Labels) := 1%float ]})
    = Some r'
    /\ r' HpaMinPodsNum !! (∅ : Labels) = Some 1%float.
Proof.
  eexists. split; [reflexivity|].
  rewrite (projection_keeps_other_label_sets (webHPA (Some 2%Z) None) _ _
             HpaMinPodsNum ∅ eq_refl).
  - reflexivity.
  - collector_in.
  - intros E. apply (f_equal (fun m : Labels => m !! "hpa_name")) in E.
    discriminate E.
Defined.

Lemma forEach_projectHPA_entries hpa c : forall (r r' : Registry) (l : Labels),
  forEach projectHPA hpa r = Some r' ->
  c ∈ [HpaCurrentPodsNum; HpaDesiredPodsNum; HpaMaxPodsNum] ->
  is_Some (r' c !! l) <-> is_Some (r c !! l) \/ exists a, a ∈ hpa /\ l = baseLabel a.
Proof.
  induction hpa as [|a hpa IH]; intros r r' l H Hc; cbn [forEach] in H.
  - injection H as <-. split; [by left|].
    intros [H|(a & Ha & _)]; [exact H|by apply elem_of_nil in Ha].
  - destruct (projectHPA a r) as [r1|] eqn:E1; cbn [mbind option_bind] in H;
      [|discriminate].
    rewrite (IH r1 r' l H Hc).
    destruct (projectHPA_always_set a r r1 c E1 Hc) as [v ->].
    rewrite lookup_insert_is_Some. split.
    + intros [[<-|[_ Hr]]|(b & Hb & ->)].
      * right. exists a. split; [apply list_elem_of_here|reflexivity].
      * by left.
      * right. exists b. split; [by apply list_elem_of_further|reflexivity].
    + intros [Hr|(b & Hb & ->)].
      * left. destruct (decide (baseLabel a = l)) as [E|E];
          [left; exact E | right; split; assumption].
      * apply elem_of_cons in Hb as [->|Hb]; [left; left; reflexivity|].
        right. exists b. split; [exact Hb|reflexivity].
Qed.

(** X8: after an iteration of the metrics loop whose fetch succeeded and
    whose projection did not panic, each of the current, desired and
    maximum replica gauges holds an entry for a label set exactly when it
    is the base label set of a fetched autoscaler: entries of autoscalers
    that are gone do not survive, whatever the registry held before. *)
Theorem iteration_entries_are_the_fetched_autoscalers
    fl hpa (r r' : Registry) evs c (l : Labels) :
  metricsIteration fl (hpa, None) r = (evs, Some r') ->
  c ∈ [HpaCurrentPodsNum; HpaDesiredPodsNum; HpaMaxPodsNum] ->
  is_Some (r' c !! l) <-> exists a, a ∈ hpa /\ l = baseLabel a.
Proof.
  cbn [metricsIteration]. intros H Hc.
  destruct (forEach projectHPA hpa (ResetAllMetric r)) as [r1|] eqn:E;
    [|discriminate].
  injection H as _ <-.
  rewrite (forEach_projectHPA_entries hpa c _ _ l E Hc), ResetAllMetric_empty,
    lookup_empty.
  split; [intros [[? ?]|H]; [discriminate|exact H] | by right].
Qed.

Lemma iteration_entries_are_the_fetched_autoscalers_witness :
  exists r',
    metricsIteration defaultFlags ([webHPA None None], None)
      (fun _ => {[ (∅ : Labels) := 1%float ]})
    = ([GetHpaListV2; Sleep 30000000000], Some r')
    /\ (is_Some (r' HpaMaxPodsNum !! (∅ : Labels))
        <-> exists a, a ∈ [webHPA None None] /\ (∅ : Labels) = baseLabel a).
Proof.
  eexists. split; [reflexivity|].
  apply (iteration_entries_are_the_fetched_autoscalers defaultFlags
           [webHPA None None] (fun _ => {[ (∅ : Labels) := 1%float ]}) _ _
           HpaMaxPodsNum ∅ eq_refl).
  collector_in.
Defined.

Lemma sameOutcome_bind (o1 o2 : option Registry) (f : Registry -> option Registry) :
  sameOutcome o1 o2 ->
  (forall r1 r2 : Registry, (forall c, r1 c = r2 c) -> sameOutcome (f r1) (f r2)) ->
  sameOutcome (o1 ≫= f) (o2 ≫= f).
Proof.
  destruct o1 as [r1|], o2 as [r2|]; cbn; intros H Hf;
    first [ exact (Hf r1 r2 H) | exact H | destruct H ].
Qed.

Lemma sameOutcome_Some (r1 r2 : Registry) :
  (forall c, r1 c = r2 c) -> sameOutcome (Some r1) (Some r2).
Proof. intros H. exact H. Qed.

Lemma WithSet_sameOutcome c labels v (r1 r2 : Registry) :
  (forall c, r1 c = r2 c) ->
  sameOutcome (WithSet c labels v r1) (WithSet c labels v r2).
Proof.
  intros H. unfold WithSet.
  destruct (validLabels (variableLabels c) labels); [|exact I].
  intros c'. destruct (decide (c = c')) as [->|Hne].
  - rewrite !fn_lookup_insert. f_equal. apply H.
  - rewrite !fn_lookup_insert_ne by exact Hne. apply H.
Qed.

Lemma forEach_sameOutcome {A : Type} (body : A -> Registry -> option Registry) l :
  (forall x (r1 r2 : Registry),
      (forall c, r1 c = r2 c) -> sameOutcome (body x r1) (body x r2)) ->
  forall r1 r2 : Registry,
    (forall c, r1 c = r2 c) -> sameOutcome (forEach body l r1) (forEach body l r2).
Proof.
  intros Hbody. induction l as [|x l IH]; intros r1 r2 H; cbn [forEach].
  - exact H.
  - apply sameOutcome_bind; [by apply Hbody | exact IH].
Qed.

Lemma setCommonMetrics_sameOutcome c base m (r1 r2 : Registry) :
  (forall c, r1 c = r2 c) ->
  sameOutcome (setCommonMetrics c base m r1) (setCommonMetrics c base m r2).
Proof.
  intros H. unfold setCommonMetrics. destruct m as [m|]; cbn [mbind option_bind];
    [|exact I].
  destruct (ParseCommonMetrics m). by apply WithSet_sameOutcome.
Qed.

Lemma projectHPA_sameOutcome a (r1 r2 : Registry) :
  (forall c, r1 c = r2 c) -> sameOutcome (projectHPA a r1) (projectHPA a r2).
Proof.
  intros H. unfold projectHPA.
  apply sameOutcome_bind.
  { unfold projectReplicas.
    repeat (apply sameOutcome_bind; [|clear r1 r2 H; intros r1 r2 H]);
      repeat case_match;
      first [ by apply WithSet_sameOutcome | by apply sameOutcome_Some ]. }
  clear r1 r2 H. intros r1 r2 H. apply sameOutcome_bind.
  { apply forEach_sameOutcome; [|exact H]. clear. intros metric r1 r2 H.
    unfold projectSpecMetric. repeat case_decide;
      first [ by apply setCommonMetrics_sameOutcome | by apply sameOutcome_Some ]. }
  clear r1 r2 H. intros r1 r2 H. apply sameOutcome_bind.
  { apply forEach_sameOutcome; [|exact H]. clear. intros metric r1 r2 H.
    unfold projectStatusMetric. repeat case_decide;
      first [ by apply setCommonMetrics_sameOutcome | by apply sameOutcome_Some ]. }
  clear r1 r2 H. intros r1 r2 H.
  apply forEach_sameOutcome; [|exact H]. clear. intros cond r1 r2 H.
  unfold projectCondition. destruct (MakeAnnotationCondLabels cond) as [fwd rev].
  destruct (conditionCollector (cond_Type cond)); [|by apply sameOutcome_Some].
  unfold setCondition. apply sameOutcome_bind; [by apply WithSet_sameOutcome|].
  intros; by apply WithSet_sameOutcome.
Qed.

(** X9: an iteration of the metrics loop whose fetch succeeded depends on
    the fetched list alone: from any two registries it gives the same
    events and, collector by collector, the same gauge contents, or
    panics from both. *)
Theorem iteration_forgets_the_previous_registry fl hpa (r r0 : Registry) :
  (metricsIteration fl (hpa, None) r).1 = (metricsIteration fl (hpa, None) r0).1
  /\ sameOutcome (metricsIteration fl (hpa, None) r).2
                 (metricsIteration fl (hpa, None) r0).2.
Proof.
  cbn [metricsIteration].
  pose proof (forEach_sameOutcome projectHPA hpa projectHPA_sameOutcome
                (ResetAllMetric r) (ResetAllMetric r0)) as H.
  destruct (forEach projectHPA hpa (ResetAllMetric r)) as [r1|],
           (forEach projectHPA hpa (ResetAllMetric r0)) as [r2|];
    cbn [fst snd]; (split; [reflexivity|]) ||
    (exfalso; apply H; intros c; by rewrite !ResetAllMetric_empty).
  - apply H. intros c. by rewrite !ResetAllMetric_empty.
  - exact I.
Qed.

(** ** The loops of [main] *)

Lemma elem_of_map {A B : Type} (f : A -> B) (l : list A) (y : B) :
  y ∈ map f l <-> exists x, y = f x /\ x ∈ l.
Proof. exact (list_elem_of_fmap f l y). Qed.

(** X10: while every fetch fails, the metrics loop only fetches and logs:
    two events per fetch, no sleep between them, and the registry is the
    one the loop started with. *)
Theorem failed_fetches_never_sleep fl (fetches : list Fetched) (r : Registry) :
  Forall (fun f : Fetched => is_Some f.2) fetches ->
  (metricsLoop fl fetches r).2 = Some r
  /\ (forall ns, Sleep ns ∉ (metricsLoop fl fetches r).1)
  /\ length (metricsLoop fl fetches r).1 = 2 * length fetches.
Proof.
  induction 1 as [|[hpa err] fetches [e He] _ (IHr & IHs & IHl)].
  - repeat apply conj; [reflexivity| |reflexivity]. intros ns H.
    by apply elem_of_nil in H.
  - cbn [snd] in He. subst err. rewrite metricsLoop_cons_error. cbn [fst snd].
    repeat apply conj.
    + exact IHr.
    + intros ns H. apply elem_of_cons in H as [H|H]; [discriminate H|].
      apply elem_of_cons in H as [H|H]; [discriminate H|]. by apply (IHs ns).
    + cbn [app length]. rewrite IHl. lia.
Qed.

Lemma failed_fetches_never_sleep_witness :
  (metricsLoop defaultFlags [([], Some "timeout"); ([], Some "timeout")]
     (fun _ => ∅)).1
  = [GetHpaListV2; LogErrorln "timeout"; GetHpaListV2; LogErrorln "timeout"]
  /\ length (metricsLoop defaultFlags [([], Some "timeout"); ([], Some "timeout")]
               (fun _ => ∅)).1 = 2 * 2.
Proof.
  split; [reflexivity|].
  apply (failed_fetches_never_sleep defaultFlags
           [([], Some "timeout"); ([], Some "timeout")] (fun _ => ∅)).
  repeat constructor; by eexists.
Defined.

(** X11: [ValidateFlags] returns no error exactly when the [loggingTo]
    flag is [stdout] or [cwlogs]; any other value, the empty one
    included, is reported with the value quoted in the message. *)
Theorem ValidateFlags_accepts_stdout_and_cwlogs fl :
  (ValidateFlags fl = None <-> LoggingTo fl = "stdout" \/ LoggingTo fl = "cwlogs")
  /\ (ValidateFlags fl = None
      \/ ValidateFlags fl
         = Some (String.append "invalid value `"
                   (String.append (LoggingTo fl)
                      "` of flag `loggingTo`, specify either `stdout` or `cwlogs`"))).
Proof.
  unfold ValidateFlags. split.
  - repeat case_bool_decide; cbn; split; intros HH; try discriminate HH;
      first [ reflexivity | by left | by right | by destruct HH ].
  - destruct (negb _); [by right | by left].
Qed.

(** X12: an interval of [n] seconds is [n] thousand million nanoseconds
    as long as the product fits in 64 bits, that is for [n] up to
    9223372036 in absolute value, the default intervals included. *)
Theorem seconds_exact_below_overflow n :
  (-9223372036 <= n <= 9223372036)%Z ->
  seconds n = (n * 1000000000)%Z.
Proof.
  intros H. unfold seconds, wrap64.
  rewrite Z.mod_small by lia. lia.
Qed.

Lemma seconds_exact_below_overflow_witness :
  seconds (MetricsInterval defaultFlags) = 30000000000%Z
  /\ seconds 9223372037 = (-9223372036709551616)%Z.
Proof.
  split; [|reflexivity].
  rewrite (seconds_exact_below_overflow (MetricsInterval defaultFlags)).
  - reflexivity.
  - cbn. lia.
Defined.

(** X13: before its loops [main] sends requests to the log store only
    when the flags are valid and condition logging is on: otherwise the
    store is untouched, and with an invalid [loggingTo] flag it panics
    before anything else happens. *)
Theorem startup_requests_need_condition_logging fl (s : Store) :
  ConditionLogging fl = false \/ is_Some (ValidateFlags fl) ->
  (startup fl s).1.2 = s
  /\ (forall c, Request c ∉ (startup fl s).2)
  /\ (forall e, ValidateFlags fl = Some e ->
        startup fl s = (Some (PanicFlags e), s, [])).
Proof.
  intros H. unfold startup.
  destruct (ValidateFlags fl) as [e|] eqn:E.
  - repeat apply conj; [reflexivity| |by intros ? [= ->]].
    intros c Hc. by apply elem_of_nil in Hc.
  - destruct H as [->|[? ?]]; [|discriminate].
    repeat apply conj; [reflexivity| |discriminate].
    intros c Hc. apply elem_of_cons in Hc as [Hc|Hc]; [discriminate Hc|].
    by apply elem_of_nil in Hc.
Qed.

Lemma startup_requests_need_condition_logging_witness :
  (startup defaultFlags ∅).1.2 = ∅
  /\ (forall c, Request c ∉ (startup defaultFlags ∅).2)
  /\ (forall e, ValidateFlags defaultFlags = Some e ->
        startup defaultFlags ∅ = (Some (PanicFlags e), ∅, [])).
Proof.
  apply (startup_requests_need_condition_logging defaultFlags ∅).
  left. reflexivity.
Defined.

(** X14: an iteration of the logging loop whose fetch succeeded starts
    with the fetch, ends with the sleep of the logging interval and
    never logs an error, whatever the shipment returned. *)
Theorem logging_iteration_logs_no_error
    (Marshal : conditions -> option string) fl hpa now others (s : Store) :
  let evs := (loggingIteration Marshal fl (hpa, None) now others s).1 in
  head evs = Some GetHpaListV2
  /\ list.last evs = Some (Sleep (seconds (LoggingInterval fl)))
  /\ Forall (fun ev => forall e, ev <> LogErrorln e) evs.
Proof.
  unfold loggingIteration. case_decide.
  - destruct (PutHPAConditionToCWLog Marshal fl now others hpa s) as [[e s'] calls].
    cbn [fst]. repeat apply conj; [reflexivity|apply (last_snoc _ (_ :: _))|].
    constructor; [discriminate|]. apply Forall_app. split.
    + apply Forall_forall. intros ev Hev. apply in_map_iff in Hev as (c & <- & _). discriminate.
    + constructor; [discriminate|constructor].
  - cbn [fst]. repeat apply conj; [reflexivity|apply (last_snoc _ (_ :: _))|].
    constructor; [discriminate|]. apply Forall_app. split.
    + apply Forall_forall. intros ev Hev. apply in_map_iff in Hev as (c & <- & _). discriminate.
    + constructor; [discriminate|constructor].
Qed.

(** X15: with any [loggingTo] other than [cwlogs] an iteration of the
    logging loop sends no request and leaves the log store alone: it
    logs one line per fetched autoscaler, in the order fetched. *)
Theorem logging_to_stdout_sends_no_request
    (Marshal : conditions -> option string) fl hpa now others (s : Store) :
  LoggingTo fl <> "cwlogs" ->
  (loggingIteration Marshal fl (hpa, None) now others s).2 = s
  /\ (forall c, Request c ∉ (loggingIteration Marshal fl (hpa, None) now others s).1)
  /\ (loggingIteration Marshal fl (hpa, None) now others s).1
     = GetHpaListV2
       :: map (fun a => LogInfoln (HpaConditionJsonString Marshal a)) hpa
       ++ [Sleep (seconds (LoggingInterval fl))].
Proof.
  intros H. unfold loggingIteration. case_decide; [done|]. cbn [fst snd].
  repeat apply conj; [reflexivity| |reflexivity].
  intros c Hc. apply elem_of_cons in Hc as [Hc|Hc]; [discriminate Hc|].
  apply elem_of_app in Hc as [Hc|Hc].
  - apply elem_of_map in Hc as (a & Ha & _). discriminate Ha.
  - apply elem_of_cons in Hc as [Hc|Hc]; [discriminate Hc|].
    by apply elem_of_nil in Hc.
Qed.

Lemma logging_to_stdout_sends_no_request_witness :
  (loggingIteration (fun _ => None) defaultFlags ([webHPA None None], None) 0 id ∅).1
  = [GetHpaListV2; LogInfoln "{}"; Sleep 60000000000].
Proof.
  etrans.
  - apply (logging_to_stdout_sends_no_request (fun _ => None) defaultFlags
             [webHPA None None] 0 id ∅). discriminate.
  - reflexivity.
Defined.

(** ** The log group at start-up *)

Lemma HasPrefix_refl s : HasPrefix s s = true.
Proof.
  induction s as [|c s IH]; [reflexivity|]. cbn.
  rewrite IH, bool_decide_eq_true_2; reflexivity.
Qed.

Lemma filter_nil_not {A : Type} (P : A -> bool) (l : list A) :
  (forall x, x ∈ l -> P x = false) -> filter (fun x => P x) l = [].
Proof.
  induction l as [|x l IH]; intros H; [reflexivity|].
  rewrite filter_cons_False.
  - apply IH. intros y Hy. apply H. by apply list_elem_of_further.
  - rewrite (H x) by apply list_elem_of_here. exact id.
Qed.

Lemma filter_not_nil {A : Type} (P : A -> bool) (l : list A) x :
  x ∈ l -> P x = true -> filter (fun x => P x) l <> [].
Proof.
  intros Hx HP E.
  assert (x ∈ filter (fun x => P x) l) as Hin.
  { apply list_elem_of_filter. split; [by rewrite HP | exact Hx]. }
  rewrite E in Hin. by apply elem_of_nil in Hin.
Qed.

Lemma elem_of_group_names (s : Store) g :
  g ∈ map fst (map_to_list s) <-> is_Some (s !! g).
Proof.
  rewrite elem_of_map. split.
  - intros ([g' st] & -> & H). apply elem_of_map_to_list in H. by eexists.
  - intros [st H]. exists (g, st). split; [reflexivity|].
    by apply elem_of_map_to_list.
Qed.

Lemma describeLogGroups_none prefix (s : Store) :
  (forall g, is_Some (s !! g) -> HasPrefix g prefix = false) ->
  describeLogGroups prefix s = Ok [].
Proof.
  intros H. unfold describeLogGroups. f_equal.
  apply (filter_nil_not (fun name => HasPrefix name prefix)).
  intros g Hg. apply H. by apply elem_of_group_names.
Qed.

Lemma describeLogGroups_some prefix (s : Store) g :
  is_Some (s !! g) -> HasPrefix g prefix = true ->
  exists g' l, describeLogGroups prefix s = Ok (g' :: l).
Proof.
  intros Hg HP. unfold describeLogGroups.
  pose proof (filter_not_nil (fun name => HasPrefix name prefix)
                (map fst (map_to_list s)) g) as H.
  destruct (filter _ _) as [|g' l].
  - exfalso. apply H; [by apply elem_of_group_names|exact HP|reflexivity].
  - by exists g', l.
Qed.

(** X16: when no group of the store has a name that starts with the
    configured group name, [CheckLogGroup] asks for the groups and then
    creates the configured group, empty, and returns no error. *)
Theorem CheckLogGroup_creates_a_missing_group fl (s : Store) :
  (forall g, is_Some (s !! g) -> HasPrefix g (cwLogGroup fl) = false) ->
  CheckLogGroup fl s
  = (None, <[cwLogGroup fl := ∅]> s,
     [DescribeLogGroups (cwLogGroup fl); CreateLogGroup (cwLogGroup fl)]).
Proof.
  intros H. unfold CheckLogGroup, createLogGroup, storeCreateLogGroup.
  rewrite (describeLogGroups_none _ _ H).
  destruct (s !! cwLogGroup fl) as [streams|] eqn:E; [|reflexivity].
  exfalso. specialize (H (cwLogGroup fl)). rewrite HasPrefix_refl in H.
  assert (true = false) as D by (apply H; rewrite E; by eexists).
  discriminate D.
Qed.

Lemma CheckLogGroup_creates_a_missing_group_witness :
  CheckLogGroup cwFlags ∅
  = (None, {[ "hpa-exporter" := ∅ ]},
     [DescribeLogGroups "hpa-exporter"; CreateLogGroup "hpa-exporter"]).
Proof.
  apply (CheckLogGroup_creates_a_missing_group cwFlags ∅).
  intros g [x H]. rewrite lookup_empty in H. discriminate H.
Defined.

(** X17: when some group of the store has a name that starts with the
    configured group name, the configured group itself or any other,
    [CheckLogGroup] only asks for the groups: it creates nothing, leaves
    the store as it is and returns no error, also when the configured
    group does not exist. *)
Theorem CheckLogGroup_accepts_any_group_with_the_prefix fl (s : Store) g :
  is_Some (s !! g) ->
  HasPrefix g (cwLogGroup fl) = true ->
  CheckLogGroup fl s = (None, s, [DescribeLogGroups (cwLogGroup fl)]).
Proof.
  intros Hg HP. unfold CheckLogGroup.
  destruct (describeLogGroups_some _ _ _ Hg HP) as (g' & l & ->). reflexivity.
Qed.

Lemma CheckLogGroup_accepts_any_group_with_the_prefix_witness :
  CheckLogGroup cwFlags {[ "hpa-exporter-dev" := ∅ ]}
  = (None, {[ "hpa-exporter-dev" := ∅ ]}, [DescribeLogGroups "hpa-exporter"])
  /\ ({[ "hpa-exporter-dev" := ∅ ]} : Store) !! "hpa-exporter" = None.
Proof.
  split; [|reflexivity].
  apply (CheckLogGroup_accepts_any_group_with_the_prefix cwFlags
           {[ "hpa-exporter-dev" := ∅ ]} "hpa-exporter-dev").
  - rewrite lookup_singleton_eq. by eexists.
  - reflexivity.
Defined.


(** ** The stream whose token is read *)

Lemma HasPrefix_leb s prefix : HasPrefix s prefix = true -> String.leb prefix s = true.
Proof.
  unfold String.leb. revert s.
  induction prefix as [|p prefix IH]; intros [|c s]; cbn; try done.
  intros H. apply andb_true_iff in H as [Hc H].
  apply bool_decide_eq_true in Hc as ->.
  unfold Ascii.compare. rewrite N.compare_refl. exact (IH s H).
Qed.

Lemma insertByName_elem x y l : y ∈ insertByName x l <-> y = x \/ y ∈ l.
Proof.
  induction l as [|z l IH]; cbn.
  - rewrite elem_of_cons. reflexivity.
  - destruct (String.leb x.1 z.1).
    + rewrite elem_of_cons. reflexivity.
    + rewrite elem_of_cons, IH, elem_of_cons. tauto.
Qed.

Lemma sortByName_elem y l : y ∈ sortByName l <-> y ∈ l.
Proof.
  unfold sortByName. induction l as [|x l IH]; cbn [foldr]; [reflexivity|].
  rewrite insertByName_elem, IH, elem_of_cons. reflexivity.
Qed.

(** The first of the sorted entries is the one named [name], when there
    is one and every entry's name starts with [name]. *)
Lemma sortByName_head name st l :
  (name, st) ∈ l ->
  (forall y, y ∈ l -> HasPrefix y.1 name = true) ->
  exists st' rest, sortByName l = (name, st') :: rest.
Proof.
  unfold sortByName. induction l as [|x l IH]; intros Hin Hall.
  - by apply elem_of_nil in Hin.
  - cbn [foldr].
    assert (String.leb name x.1 = true) as Hx.
    { apply HasPrefix_leb, Hall, list_elem_of_here. }
    destruct (decide (x.1 = name)) as [Hname|Hname].
    + destruct (foldr insertByName [] l) as [|y sorted] eqn:E; cbn [insertByName].
      * exists x.2, []. destruct x; cbn in *; by subst.
      * assert (String.leb x.1 y.1 = true) as ->.
        { rewrite Hname. apply HasPrefix_leb, Hall, list_elem_of_further.
          apply sortByName_elem. unfold sortByName. rewrite E.
          apply list_elem_of_here. }
        exists x.2, (y :: sorted). destruct x; cbn in *; by subst.
    + apply elem_of_cons in Hin as [Hin|Hin]; [by subst x|].
      destruct IH as (st' & rest & ->); [exact Hin| |].
      { intros y Hy. apply Hall. by apply list_elem_of_further. }
      cbn [insertByName fst].
      destruct (String.leb x.1 name) eqn:Hle.
      * exfalso. apply Hname. by apply String.leb_antisym.
      * by exists st', (insertByName x rest).
Qed.

Lemma describeLogStreams_first group name (s : Store) streams st :
  s !! group = Some streams ->
  streams !! name = Some st ->
  exists rest,
    describeLogStreams group name s
    = Ok ({| LogStreamName := name; UploadSequenceToken := st_token st |} :: rest).
Proof.
  intros Hg Hn. unfold describeLogStreams. rewrite Hg.
  destruct (sortByName_head name st
              (filter (fun kv => HasPrefix kv.1 name) (map_to_list streams)))
    as (st' & rest & E).
  - apply list_elem_of_filter. split.
    + cbn. by rewrite HasPrefix_refl.
    + by apply elem_of_map_to_list.
  - intros y Hy. apply list_elem_of_filter in Hy as [Hy _].
    by apply Is_true_true.
  - assert ((name, st') ∈ map_to_list streams) as Hin.
    { assert ((name, st') ∈ sortByName
                (filter (fun kv => HasPrefix kv.1 name) (map_to_list streams))) as H
        by (rewrite E; apply list_elem_of_here).
      apply sortByName_elem, list_elem_of_filter in H as [_ H]. exact H. }
    apply elem_of_map_to_list in Hin. rewrite Hn in Hin. injection Hin as <-.
    rewrite E. cbn [map fst snd]. by eexists.
Qed.

Lemma describeLogStreams_none group name (s : Store) streams :
  s !! group = Some streams ->
  (forall n, is_Some (streams !! n) -> HasPrefix n name = false) ->
  describeLogStreams group name s = Ok [].
Proof.
  intros Hg H. unfold describeLogStreams. rewrite Hg.
  rewrite (filter_nil_not (fun kv : string * StreamState => HasPrefix kv.1 name));
    [reflexivity|].
  intros [n st] Hin. apply elem_of_map_to_list in Hin. apply H.
  cbn. rewrite Hin. by eexists.
Qed.

(** X19: when the configured stream exists, [token] returns that stream's
    token after the one request for the streams, whatever other streams
    of the group share its name as a prefix: sorted by name, the stream
    named exactly like the prefix comes first. Nothing is created. *)
Theorem token_reads_the_configured_stream fl (s : Store) streams st :
  s !! cwLogGroup fl = Some streams ->
  streams !! cwLogStream fl = Some st ->
  token fl s
  = ((st_token st, None), s, [DescribeLogStreams (cwLogGroup fl) (cwLogStream fl)]).
Proof.
  intros Hg Hn. unfold token.
  destruct (describeLogStreams_first _ _ _ _ _ Hg Hn) as (rest & ->). reflexivity.
Qed.

Lemma token_reads_the_configured_stream_witness :
  token cwFlags
    {[ "hpa-exporter" :=
         {[ "condition-log" := {| st_token := Some 5%N; st_batches := [] |};
            "condition-log-old" := {| st_token := Some 7%N; st_batches := [] |} ]} ]}
  = ((Some 5%N, None),
     {[ "hpa-exporter" :=
          {[ "condition-log" := {| st_token := Some 5%N; st_batches := [] |};
             "condition-log-old" := {| st_token := Some 7%N; st_batches := [] |} ]} ]},
     [DescribeLogStreams "hpa-exporter" "condition-log"]).
Proof.
  apply (token_reads_the_configured_stream cwFlags _
           {[ "condition-log" := {| st_token := Some 5%N; st_batches := [] |};
              "condition-log-old" := {| st_token := Some 7%N; st_batches := [] |} ]}
           {| st_token := Some 5%N; st_batches := [] |}); reflexivity.
Defined.

(** The shipment to a stream that exists, with no other writer. *)
Lemma ship_to_existing_stream
    (Marshal : conditions -> option string) fl now a hpa (s : Store) streams st :
  s !! cwLogGroup fl = Some streams ->
  streams !! cwLogStream fl = Some st ->
  let batch :=
    map (fun a => {| Message := HpaConditionJsonString Marshal a;
                     Timestamp := wrap64 (now * 1000) |}) (a :: hpa) in
  PutHPAConditionToCWLog Marshal fl now id (a :: hpa) s
  = (None,
     <[cwLogGroup fl :=
         <[cwLogStream fl := {| st_token := Some (nextToken (st_token st));
                                st_batches := st_batches st ++ [batch] |}]> streams]> s,
     [DescribeLogStreams (cwLogGroup fl) (cwLogStream fl);
      PutLogEvents (cwLogGroup fl) (cwLogStream fl) (st_token st) batch]).
Proof.
  intros Hg Hn batch. unfold PutHPAConditionToCWLog, token.
  destruct (describeLogStreams_first _ _ _ _ _ Hg Hn) as (rest & ->).
  cbn [UploadSequenceToken]. unfold putLogEvents, id. cbn [map].
  rewrite Hg, Hn. rewrite decide_True by reflexivity. reflexivity.
Qed.

(** X20: when the group holds no stream whose name starts with the
    configured stream name, the shipment of a fetched list asks for the
    streams, creates the configured stream and appends one batch with no
    token; the next shipment, on the store the first one left, creates
    nothing and appends a second batch with the token the store gave the
    stream after the first. *)
Theorem ship_creates_the_stream_once
    (Marshal : conditions -> option string) fl now now' a hpa a' hpa'
    (s : Store) streams :
  s !! cwLogGroup fl = Some streams ->
  (forall n, is_Some (streams !! n) -> HasPrefix n (cwLogStream fl) = false) ->
  let batch t l :=
    map (fun a => {| Message := HpaConditionJsonString Marshal a;
                     Timestamp := wrap64 (t * 1000) |}) l in
  let describe := DescribeLogStreams (cwLogGroup fl) (cwLogStream fl) in
  let stored bs t :=
    <[cwLogGroup fl :=
        <[cwLogStream fl := {| st_token := Some t; st_batches := bs |}]> streams]> s in
  PutHPAConditionToCWLog Marshal fl now id (a :: hpa) s
  = (None, stored [batch now (a :: hpa)] 1%N,
     [describe; CreateLogStream (cwLogGroup fl) (cwLogStream fl);
      PutLogEvents (cwLogGroup fl) (cwLogStream fl) None (batch now (a :: hpa))])
  /\ PutHPAConditionToCWLog Marshal fl now' id (a' :: hpa')
       (stored [batch now (a :: hpa)] 1%N)
     = (None, stored [batch now (a :: hpa); batch now' (a' :: hpa')] 2%N,
        [describe;
         PutLogEvents (cwLogGroup fl) (cwLogStream fl) (Some 1%N)
           (batch now' (a' :: hpa'))]).
Proof.
  intros Hg Hnone batch describe stored.
  assert (streams !! cwLogStream fl = None) as Habsent.
  { destruct (streams !! cwLogStream fl) as [x|] eqn:E; [|reflexivity]. exfalso.
    specialize (Hnone (cwLogStream fl)). rewrite HasPrefix_refl in Hnone.
    assert (true = false) as D by (apply Hnone; rewrite E; by eexists).
    discriminate D. }
  split.
  - unfold PutHPAConditionToCWLog, token, createStream, createLogStream.
    rewrite (describeLogStreams_none _ _ _ _ Hg Hnone), Hg, Habsent.
    unfold putLogEvents, id. cbn [map app].
    rewrite lookup_insert_eq, lookup_insert_eq. cbn [st_token st_batches].
    rewrite decide_True by reflexivity.
    unfold stored. rewrite insert_insert_eq, insert_insert_eq. reflexivity.
  - unfold stored.
    rewrite (ship_to_existing_stream Marshal fl now' a' hpa' _
               (<[cwLogStream fl := {| st_token := Some 1%N;
                                       st_batches := [batch now (a :: hpa)] |}]> streams)
               {| st_token := Some 1%N; st_batches := [batch now (a :: hpa)] |});
      [|apply lookup_insert_eq|apply lookup_insert_eq].
    cbn [st_token st_batches nextToken app].
    rewrite insert_insert_eq, insert_insert_eq. reflexivity.
Qed.

Lemma ship_creates_the_stream_once_witness :
  PutHPAConditionToCWLog (fun _ => None) cwFlags 1 id [webHPA None None]
    {[ "hpa-exporter" := ∅ ]}
  = (None,
     streamStore "condition-log"
       {| st_token := Some 1%N;
          st_batches := [[{| Message := "{}"; Timestamp := 1000 |}]] |},
     [DescribeLogStreams "hpa-exporter" "condition-log";
      CreateLogStream "hpa-exporter" "condition-log";
      PutLogEvents "hpa-exporter" "condition-log" None
        [{| Message := "{}"; Timestamp := 1000 |}]]).
Proof.
  etrans.
  - apply (ship_creates_the_stream_once (fun _ => None) cwFlags 1 2
             (webHPA None None) [] (webHPA None None) []
             {[ "hpa-exporter" := ∅ ]} ∅).
    + reflexivity.
    + intros n [x H]. rewrite lookup_empty in H. discriminate H.
  - reflexivity.
Defined.

(** X21: when the configured group does not exist, the request for the
    streams fails and the shipment returns that error at once: no stream
    is created, nothing is appended and the store is left as it is. *)
Theorem ship_without_the_group_appends_nothing
    (Marshal : conditions -> option string) fl now others hpa (s : Store) :
  s !! cwLogGroup fl = None ->
  PutHPAConditionToCWLog Marshal fl now others hpa s
  = (Some ResourceNotFoundException, s,
     [DescribeLogStreams (cwLogGroup fl) (cwLogStream fl)]).
Proof.
  intros H. unfold PutHPAConditionToCWLog, token, describeLogStreams.
  rewrite H. reflexivity.
Qed.

Lemma ship_without_the_group_appends_nothing_witness :
  PutHPAConditionToCWLog (fun _ => None) cwFlags 1 otherWriter [webHPA None None] ∅
  = (Some ResourceNotFoundException, ∅,
     [DescribeLogStreams "hpa-exporter" "condition-log"]).
Proof.
  apply (ship_without_the_group_appends_nothing (fun _ => None) cwFlags 1
           otherWriter [webHPA None None] ∅).
  reflexivity.
Defined.


